(** * oglob: predicate algebra, evaluation cache and lazy traversal

    A shallow embedding of [src/oglob/__init__.py].

    - A [pathlib.Path] is the list of its parts ([path]); [Path.name] is the
      last part, [Path.parts] the list itself.  [Path.absolute()] and
      [Path.as_posix()] are kept abstract (Section variables), since they
      depend on the working directory and the platform.
    - A Python exception is a value of [exn]; fallible code returns [res].
    - User predicates are total functions into [res bool]: they may raise.
    - The [_ComputeCache] object is threaded explicitly through [_run]; a
      raising predicate still leaves the mutations made before it.
    - The file system seen by [is_symlink], [is_dir] and [iterdir] is a
      finite tree of [entry]s; a symlink entry carries the view of its
      target (the children listed through it). *)

From Stdlib Require Import List String Bool Arith Lia.
Import ListNotations.


Definition path := list string.

(** Python exceptions that the code raises or lets through. *)
Inductive exn :=
| FileNotFoundError
| AssertionError
| TypeError
| UserError (code : nat).

Inductive res (A : Type) :=
| ROk (a : A)
| RExc (e : exn).
Arguments ROk {A} a.
Arguments RExc {A} e.

(** A POSIX anchor: the first part of an absolute path. *)
Definition is_anchor (s : string) : bool :=
  String.eqb s "/" || String.eqb s "//".

(** [Path.name]: the final component, '' when there is none (the path has
    no parts, or its only part is the anchor, as for [Path('/')]). *)
Definition path_name (p : path) : string :=
  match p with
  | [] => ""%string
  | [x] => if is_anchor x then ""%string else x
  | _ => last p ""%string
  end.

(** [Path.parts]. *)
Definition path_parts (p : path) : list string := p.

(** ** Patterns (classes [Path], [File], [Full], [Sec], [OrPath], [AndPath], [NotPath]) *)

Inductive pattern :=
| Path (pred : path -> res bool)
| File (pred : string -> res bool)
| Full (pred : string -> res bool)
| Sec (pred : list string -> res bool) (absolute : bool)
| OrPath (lhs rhs : pattern)
| AndPath (lhs rhs : pattern)
| NotPath (pred : pattern).

(** [isinstance(p, PathPattern)]: only the four leaf classes derive from
    [PathPattern]; [OrPath], [AndPath] and [NotPath] are plain dataclasses
    and so have none of its operator methods. *)
Definition is_PathPattern (p : pattern) : bool :=
  match p with
  | Path _ | File _ | Full _ | Sec _ _ => true
  | OrPath _ _ | AndPath _ _ | NotPath _ => false
  end.

(** [_check_arg]: the [assert isinstance(pattern, PathPattern)]. *)
Definition _check_arg (p : pattern) : res unit :=
  if is_PathPattern p then ROk tt else RExc AssertionError.

Definition res_bind {A B} (m : res A) (f : A -> res B) : res B :=
  match m with
  | ROk a => f a
  | RExc e => RExc e
  end.

Notation "x <- m ;; k" := (res_bind m (fun x => k))
  (at level 61, m at next level, right associativity).

(** Python operators.  [a | b] calls [type(a).__or__] when it exists;
    otherwise it falls back to [type(b).__ror__], which no class defines,
    so the expression raises [TypeError].  Same for [&], [~] and [-]. *)

(** [PathPattern.__or__] *)
Definition op_or (self other : pattern) : res pattern :=
  if is_PathPattern self then
    _ <- _check_arg other ;; ROk (OrPath self other)
  else RExc TypeError.

(** [PathPattern.__and__] *)
Definition op_and (self other : pattern) : res pattern :=
  if is_PathPattern self then
    _ <- _check_arg other ;; ROk (AndPath self other)
  else RExc TypeError.

(** [PathPattern.__invert__] *)
Definition op_invert (self : pattern) : res pattern :=
  if is_PathPattern self then ROk (NotPath self) else RExc TypeError.

(** [PathPattern.__sub__]: [_check_arg(other); return self & ~other]. *)
Definition op_sub (self other : pattern) : res pattern :=
  if is_PathPattern self then
    _ <- _check_arg other ;;
    nother <- op_invert other ;;
    op_and self nother
  else RExc TypeError.

(** ** The evaluation cache [_ComputeCache] *)

(** [base], [absolute] and [fullpath] are the fields of the dataclass.
    [n_absolute] and [n_as_posix] are ghost counters, read by no code:
    they count the calls of [Path.absolute()] and [Path.as_posix()] made
    through the cache, so that reuse of the stored values can be stated. *)
Record _ComputeCache := mkCache {
  base : path;
  absolute : option path;
  fullpath : option string;
  n_absolute : nat;
  n_as_posix : nat
}.

(** [_ComputeCache.reset] *)
Definition reset (c : _ComputeCache) (p : path) : _ComputeCache :=
  mkCache p None None (n_absolute c) (n_as_posix c).

Section Oglob.

(** [Path.absolute()] and [Path.as_posix()]. *)
Variable path_absolute : path -> path.
Variable path_as_posix : path -> string.

(** [absolute = cache.absolute = cache.base.absolute()] *)
Definition set_absolute (c : _ComputeCache) : path * _ComputeCache :=
  let a := path_absolute (base c) in
  (a, mkCache (base c) (Some a) (fullpath c) (S (n_absolute c)) (n_as_posix c)).

(** [PathPattern._run] for every class. *)
Fixpoint _run (p : pattern) (c : _ComputeCache) : res bool * _ComputeCache :=
  match p with
  | Path pred => (pred (base c), c)
  | File pred => (pred (path_name (base c)), c)
  | Full pred =>
      match fullpath c with
      | Some fp => (pred fp, c)
      | None =>
          let '(a, c1) :=
            match absolute c with
            | Some a => (a, c)
            | None => set_absolute c
            end in
          let fp := path_as_posix a in
          let c2 := mkCache (base c1) (absolute c1) (Some fp)
                            (n_absolute c1) (S (n_as_posix c1)) in
          (pred fp, c2)
      end
  | Sec pred use_abs =>
      if use_abs then
        let '(a, c1) :=
          match absolute c with
          | Some a => (a, c)
          | None => set_absolute c
          end in
        (pred (path_parts a), c1)
      else (pred (path_parts (base c)), c)
  | OrPath l r =>
      let '(rl, c1) := _run l c in
      match rl with
      | ROk true => (ROk true, c1)
      | ROk false => _run r c1
      | RExc e => (RExc e, c1)
      end
  | AndPath l r =>
      let '(rl, c1) := _run l c in
      match rl with
      | ROk false => (ROk false, c1)
      | ROk true => _run r c1
      | RExc e => (RExc e, c1)
      end
  | NotPath q =>
      let '(rq, c1) := _run q c in
      match rq with
      | ROk b => (ROk (negb b), c1)
      | RExc e => (RExc e, c1)
      end
  end.

End Oglob.

(** ** The file system and the traversal *)

(** An entry as seen through [is_symlink], [is_dir] and [iterdir]: a
    non-directory ([EFile]) or a directory ([EDir]) with its listing, in
    enumeration order.  A symlink to a directory is an [EDir] with
    [is_symlink = true] whose listing is the target's, seen through the
    link.  A listing is what [iterdir()] gives when the traversal reaches
    the directory (the file system may have changed since [files] was
    called): entries, possibly ended by the exception [iterdir()] raises
    ([LRaise]: an unreadable directory, or one removed in the meantime). *)
Inductive entry :=
| EFile (nm : string) (is_symlink : bool)
| EDir (nm : string) (is_symlink : bool) (children : listing)
with listing :=
| LNil
| LCons (e : entry) (rest : listing)
| LRaise (x : exn).

Scheme entry_mut := Induction for entry Sort Prop
with listing_mut := Induction for listing Sort Prop.

Definition entry_name (e : entry) : string :=
  match e with EFile nm _ | EDir nm _ _ => nm end.

Definition entry_is_symlink (e : entry) : bool :=
  match e with EFile _ l | EDir _ l _ => l end.

(** [_Config]; its [cache] field is threaded as state instead. *)
Record _Config := mkConfig {
  cfg_pattern : pattern;
  recursive : bool;
  include_dir : bool;
  follow_symlinks : bool
}.

(** A generator body run on the cache: the paths it yields, in order, and
    how it ends (normally, or by an exception that stops the iteration),
    with the final cache. *)
Definition gen := _ComputeCache -> list path * res unit * _ComputeCache.

Definition g_ret : gen := fun c => ([], ROk tt, c).

(** Running two generator bodies one after the other ([yield from]). *)
Definition g_seq (g1 g2 : gen) : gen :=
  fun c =>
    match g1 c with
    | (ys1, ROk _, c1) =>
        let '(ys2, r2, c2) := g2 c1 in (ys1 ++ ys2, r2, c2)
    | (ys1, RExc e, c1) => (ys1, RExc e, c1)
    end.

(** Inclusions (the [if cond: ...] blocks with nothing in the else). *)
Definition g_when (b : bool) (g : gen) : gen := if b then g else g_ret.

(** An exception raised inside the generator: it ends the iteration. *)
Definition g_raise (x : exn) : gen := fun c => ([], RExc x, c).

Section Traversal.

Variable path_absolute : path -> path.
Variable path_as_posix : path -> string.

(** [config.cache.reset(p); if config.pattern._run(config.cache): yield p] *)
Definition test_and_yield (cfg : _Config) (p : path) : gen :=
  fun c =>
    let '(r, c1) := _run path_absolute path_as_posix (cfg_pattern cfg) (reset c p) in
    match r with
    | ROk true => ([p], ROk tt, c1)
    | ROk false => ([], ROk tt, c1)
    | RExc e => ([], RExc e, c1)
    end.

(** [_unsafe_dir_files(curdir, config)]: the loop over [curdir.iterdir()]
    ([_unsafe_dir_files]) and its body for one child ([dir_child]). *)
Fixpoint _unsafe_dir_files (cfg : _Config) (curdir : path) (ls : listing) : gen :=
  match ls with
  | LNil => g_ret
  | LCons e rest =>
      g_seq (dir_child cfg curdir e) (_unsafe_dir_files cfg curdir rest)
  | LRaise x => g_raise x
  end
with dir_child (cfg : _Config) (curdir : path) (e : entry) : gen :=
  match e with
  | EFile nm l =>
      if negb (follow_symlinks cfg) && l then g_ret
      else test_and_yield cfg (curdir ++ [nm])
  | EDir nm l ch =>
      if negb (follow_symlinks cfg) && l then g_ret
      else
        let each := curdir ++ [nm] in
        g_seq (g_when (include_dir cfg) (test_and_yield cfg each))
              (g_when (recursive cfg) (_unsafe_dir_files cfg each ch))
  end.

(** [_unsafe_files_impl(cur, config)]; [e] is the entry found at [cur]. *)
Definition _unsafe_files_impl (cfg : _Config) (cur : path) (e : entry) : gen :=
  if negb (follow_symlinks cfg) && entry_is_symlink e then g_ret
  else
    match e with
    | EDir _ _ ch =>
        g_seq (g_when (include_dir cfg) (test_and_yield cfg cur))
              (_unsafe_dir_files cfg cur ch)
    | EFile _ _ => test_and_yield cfg cur
    end.

End Traversal.

(** ** The entry point [files.__new__] *)

(** What [files(...)] returns: [iter(())], or the generator object of
    [_unsafe_files_impl] together with the cache it was created with.
    Nothing of the generator runs before [iterate]. *)
Inductive iterable :=
| EmptyIter
| GenIter (g : gen) (c0 : _ComputeCache).

(** Iterating the returned object to exhaustion ([list(...)]): the yielded
    paths and how the iteration ends. *)
Definition iterate (it : iterable) : list path * res unit :=
  match it with
  | EmptyIter => ([], ROk tt)
  | GenIter g c0 => let '(ys, r, _) := g c0 in (ys, r)
  end.

Section Entry.

Variable path_absolute : path -> path.
Variable path_as_posix : path -> string.

(** [files.__new__]; [lookup] is the entry at [root] ([None] when
    [root.exists()] is false).  The string-to-path conversion with
    [expanduser] happens before and is not modelled, nor are the errors
    [expanduser()] and [exists()] may raise themselves. *)
Definition files_new (root : path) (lookup : option entry) (pat : pattern)
    (recursive include_dir missing_ok follow_symlinks : bool) : res iterable :=
  match lookup with
  | None => if missing_ok then ROk EmptyIter else RExc FileNotFoundError
  | Some e =>
      let cfg := mkConfig pat recursive include_dir follow_symlinks in
      ROk (GenIter (_unsafe_files_impl path_absolute path_as_posix cfg root e)
                   (mkCache root None None 0 0))
  end.

End Entry.

(** ** The test fixture of [tests/test_all.py] *)

(** [str.endswith] *)
Definition ends_with (suf s : string) : bool :=
  let n := String.length s in
  let k := String.length suf in
  (k <=? n) && String.eqb (substring (n - k) k s) suf.

Definition dir1_listing : listing :=
  LCons (EFile "file3.py" false)
  (LCons (EFile "file4.jpg" false)
  (LCons (EDir "dir2" false (LCons (EFile "file5.c" false) LNil)) LNil)).

(** [temp_test_dir]: [link_dir] is a symlink to [dir1]. *)
Definition temp_test_dir : entry :=
  EDir "tmp" false
    (LCons (EFile "file1.py" false)
    (LCons (EFile "file2.txt" false)
    (LCons (EDir "dir1" false dir1_listing)
    (LCons (EDir "link_dir" true dir1_listing) LNil)))).

Definition tmp_root : path := ["/"; "tmp"]%string.

(** Concrete [Path.absolute()] (the root is already absolute) and
    [Path.as_posix()] for the fixture. *)
Definition fixture_absolute (p : path) : path := p.
Definition fixture_as_posix (p : path) : string :=
  match p with
  | "/"%string :: rest => ("/" ++ String.concat "/" rest)%string
  | _ => String.concat "/" p
  end.

Definition name_endswith (suf : string) : pattern :=
  File (fun f => ROk (ends_with suf f)).

Definition fixture_query (pat : pattern) (recursive include_dir follow : bool)
    : res (list path * res unit) :=
  res_bind (files_new fixture_absolute fixture_as_posix tmp_root
              (Some temp_test_dir) pat recursive include_dir true follow)
           (fun it => ROk (iterate it)).

Example test_recursive_search_nofollow :
  fixture_query (name_endswith ".py") true false false =
  ROk ([["/"; "tmp"; "file1.py"]; ["/"; "tmp"; "dir1"; "file3.py"]]%string, ROk tt).
Proof. reflexivity. Qed.

Example test_recursive_search_follow :
  fixture_query (name_endswith ".py") true false true =
  ROk ([["/"; "tmp"; "file1.py"]; ["/"; "tmp"; "dir1"; "file3.py"];
        ["/"; "tmp"; "link_dir"; "file3.py"]]%string, ROk tt).
Proof. reflexivity. Qed.

Example test_find_python_files :
  fixture_query (name_endswith ".py") false false true =
  ROk ([["/"; "tmp"; "file1.py"]]%string, ROk tt).
Proof. reflexivity. Qed.

(** ** Auxiliary definitions for the statements *)

Definition opt_count {A} (o : option A) : nat :=
  match o with Some _ => 1 | None => 0 end.

(** Running several pattern trees, one after the other, on one cache. *)
Fixpoint run_all (pa : path -> path) (pp : path -> string)
    (ns : list pattern) (c : _ComputeCache) : _ComputeCache :=
  match ns with
  | [] => c
  | n :: ns' => run_all pa pp ns' (snd (_run pa pp n c))
  end.

(** The stored fields hold what [absolute()] and [as_posix()] give on
    [base]: true after [reset] and kept by [_run]. *)
Definition cache_consistent (pa : path -> path) (pp : path -> string)
    (c : _ComputeCache) : Prop :=
  (absolute c = None \/ absolute c = Some (pa (base c))) /\
  (fullpath c = None \/
   (absolute c = Some (pa (base c)) /\ fullpath c = Some (pp (pa (base c))))).

(** Python's [x or y] / [x and y] / [not x] on results that may be
    exceptions, [y] being evaluated only when needed. *)
Definition res_or (x y : res bool) : res bool :=
  match x with ROk true => ROk true | ROk false => y | RExc e => RExc e end.
Definition res_and (x y : res bool) : res bool :=
  match x with ROk false => ROk false | ROk true => y | RExc e => RExc e end.
Definition res_not (x : res bool) : res bool :=
  match x with ROk b => ROk (negb b) | RExc e => RExc e end.

(** ** Cache lemmas *)

Section CacheFacts.

Variable pa : path -> path.
Variable pp : path -> string.

(** Frame of [_run]: [base] is kept, [absolute] and [fullpath] only go
    from unset to the value computed from [base]. *)
Lemma run_frame (p : pattern) : forall c,
  let c' := snd (_run pa pp p c) in
  base c' = base c /\
  (absolute c' = absolute c \/
   (absolute c = None /\ absolute c' = Some (pa (base c)))) /\
  (fullpath c' = fullpath c \/
   (fullpath c = None /\
    fullpath c' = Some (pp (match absolute c with
                            | Some a => a
                            | None => pa (base c) end)))).
Proof.
  induction p as [pred|pred|pred|pred ua|l IHl r IHr|l IHl r IHr|q IHq];
    intros [b a f na np]; simpl.
  - auto.
  - auto.
  - destruct f as [fp|]; [auto|].
    destruct a as [a|]; simpl; auto.
  - destruct ua; [|auto]. destruct a as [a|]; simpl; auto.
  - destruct (IHl (mkCache b a f na np)) as (Hb1 & Ha1 & Hf1).
    destruct (_run pa pp l (mkCache b a f na np)) as [rl c1] eqn:E1.
    simpl in *.
    assert (Hc2 := IHr c1).
    destruct rl as [[|]|e]; simpl; [auto| |auto].
    destruct Hc2 as (Hb2 & Ha2 & Hf2). rewrite Hb2, Hb1.
    split; [reflexivity|]. rewrite Hb1 in Ha2, Hf2.
    destruct Ha1 as [Ha1|[Ha1 Ha1']]; destruct Ha2 as [Ha2|[Ha2 Ha2']];
      destruct Hf1 as [Hf1|[Hf1 Hf1']]; destruct Hf2 as [Hf2|[Hf2 Hf2']];
      subst; try congruence;
      try rewrite Ha1 in *; try rewrite Ha1' in *; try rewrite Ha2' in *;
      try rewrite Hf1 in *; try rewrite Hf1' in *; try rewrite Hf2' in *;
      try rewrite Ha2 in *; auto; try congruence.
  - destruct (IHl (mkCache b a f na np)) as (Hb1 & Ha1 & Hf1).
    destruct (_run pa pp l (mkCache b a f na np)) as [rl c1] eqn:E1.
    simpl in *.
    assert (Hc2 := IHr c1).
    destruct rl as [[|]|e]; simpl; [|auto|auto].
    destruct Hc2 as (Hb2 & Ha2 & Hf2). rewrite Hb2, Hb1.
    split; [reflexivity|]. rewrite Hb1 in Ha2, Hf2.
    destruct Ha1 as [Ha1|[Ha1 Ha1']]; destruct Ha2 as [Ha2|[Ha2 Ha2']];
      destruct Hf1 as [Hf1|[Hf1 Hf1']]; destruct Hf2 as [Hf2|[Hf2 Hf2']];
      subst; try congruence;
      try rewrite Ha1 in *; try rewrite Ha1' in *; try rewrite Ha2' in *;
      try rewrite Hf1 in *; try rewrite Hf1' in *; try rewrite Hf2' in *;
      try rewrite Ha2 in *; auto; try congruence.
  - destruct (IHq (mkCache b a f na np)) as (Hb1 & Ha1 & Hf1).
    destruct (_run pa pp q (mkCache b a f na np)) as [rq c1] eqn:E1.
    simpl in *. destruct rq; simpl; auto.
Qed.

Lemma reset_consistent (c : _ComputeCache) (p : path) :
  cache_consistent pa pp (reset c p).
Proof. unfold cache_consistent; simpl; auto. Qed.

(** Unfolding a consistent cache into its two cases per field. *)
Local Ltac consistent_cases H :=
  let Ha := fresh "Ha" in let Hf := fresh "Hf" in
  destruct H as [[Ha|Ha] [Hf|[? Hf]]]; simpl in *; subst;
  try discriminate.

Lemma run_consistent (p : pattern) : forall c,
  cache_consistent pa pp c -> cache_consistent pa pp (snd (_run pa pp p c)).
Proof.
  induction p as [pred|pred|pred|pred ua|l IHl r IHr|l IHl r IHr|q IHq];
    intros [b a f na np] Hc; simpl.
  - exact Hc.
  - exact Hc.
  - unfold cache_consistent in *; simpl in *.
    consistent_cases Hc; simpl; auto.
  - unfold cache_consistent in *; simpl in *.
    destruct ua; [|simpl; tauto].
    consistent_cases Hc; simpl; auto.
  - specialize (IHl _ Hc).
    destruct (_run pa pp l (mkCache b a f na np)) as [[[|]|e] c1]; simpl in *;
      auto.
  - specialize (IHl _ Hc).
    destruct (_run pa pp l (mkCache b a f na np)) as [[[|]|e] c1]; simpl in *;
      auto.
  - specialize (IHq _ Hc).
    destruct (_run pa pp q (mkCache b a f na np)) as [[b'|e] c1]; simpl in *;
      auto.
Qed.

Lemma run_all_consistent (ns : list pattern) : forall c,
  cache_consistent pa pp c -> cache_consistent pa pp (run_all pa pp ns c).
Proof.
  induction ns as [|n ns IH]; intros c Hc; simpl; auto using run_consistent.
Qed.

Lemma run_all_base (ns : list pattern) : forall c,
  base (run_all pa pp ns c) = base c.
Proof.
  induction ns as [|n ns IH]; intros c; simpl; [reflexivity|].
  rewrite IH. apply (run_frame n c).
Qed.

(** Ghost counters: a call of [absolute()] (resp. [as_posix()]) happens
    exactly when the stored field goes from unset to set. *)
Lemma run_counts (p : pattern) : forall c,
  let c' := snd (_run pa pp p c) in
  n_absolute c' + opt_count (absolute c) = n_absolute c + opt_count (absolute c') /\
  n_as_posix c' + opt_count (fullpath c) = n_as_posix c + opt_count (fullpath c').
Proof.
  induction p as [pred|pred|pred|pred ua|l IHl r IHr|l IHl r IHr|q IHq];
    intros [b a f na np]; simpl.
  - lia.
  - lia.
  - destruct f as [fp|]; simpl; [lia|].
    destruct a as [a|]; simpl; lia.
  - destruct ua; simpl; [|lia]. destruct a as [a|]; simpl; lia.
  - specialize (IHl (mkCache b a f na np)).
    destruct (_run pa pp l (mkCache b a f na np)) as [[[|]|e] c1]; simpl in *;
      [lia| |lia].
    specialize (IHr c1). simpl in *. lia.
  - specialize (IHl (mkCache b a f na np)).
    destruct (_run pa pp l (mkCache b a f na np)) as [[[|]|e] c1]; simpl in *;
      [|lia|lia].
    specialize (IHr c1). simpl in *. lia.
  - specialize (IHq (mkCache b a f na np)).
    destruct (_run pa pp q (mkCache b a f na np)) as [[b'|e] c1]; simpl in *;
      lia.
Qed.

Lemma run_all_counts (ns : list pattern) : forall c,
  let c' := run_all pa pp ns c in
  n_absolute c' + opt_count (absolute c) = n_absolute c + opt_count (absolute c') /\
  n_as_posix c' + opt_count (fullpath c) = n_as_posix c + opt_count (fullpath c').
Proof.
  induction ns as [|n ns IH]; intros c; simpl; [lia|].
  destruct (run_counts n c) as [H1 H2].
  destruct (IH (snd (_run pa pp n c))) as [H3 H4]. lia.
Qed.

(** On a consistent cache the result of a pattern only depends on [base]. *)
Lemma run_result_base (p : pattern) : forall c1 c2,
  cache_consistent pa pp c1 -> cache_consistent pa pp c2 ->
  base c1 = base c2 ->
  fst (_run pa pp p c1) = fst (_run pa pp p c2).
Proof.
  induction p as [pred|pred|pred|pred ua|l IHl r IHr|l IHl r IHr|q IHq];
    intros [b1 a1 f1 na1 np1] [b2 a2 f2 na2 np2] H1 H2 Hb; simpl in *; subst.
  - reflexivity.
  - reflexivity.
  - unfold cache_consistent in *; simpl in *.
    consistent_cases H1; consistent_cases H2; reflexivity.
  - unfold cache_consistent in *; simpl in *.
    destruct ua; [|reflexivity].
    consistent_cases H1; consistent_cases H2; reflexivity.
  - assert (E := IHl _ _ H1 H2 eq_refl).
    assert (C1 := run_consistent l _ H1). assert (C2 := run_consistent l _ H2).
    assert (B1 := proj1 (run_frame l (mkCache b2 a1 f1 na1 np1))).
    assert (B2 := proj1 (run_frame l (mkCache b2 a2 f2 na2 np2))).
    destruct (_run pa pp l (mkCache b2 a1 f1 na1 np1)) as [r1 c1'].
    destruct (_run pa pp l (mkCache b2 a2 f2 na2 np2)) as [r2 c2'].
    simpl in *; subst r2.
    destruct r1 as [[|]|e]; simpl; auto.
    apply IHr; auto. congruence.
  - assert (E := IHl _ _ H1 H2 eq_refl).
    assert (C1 := run_consistent l _ H1). assert (C2 := run_consistent l _ H2).
    assert (B1 := proj1 (run_frame l (mkCache b2 a1 f1 na1 np1))).
    assert (B2 := proj1 (run_frame l (mkCache b2 a2 f2 na2 np2))).
    destruct (_run pa pp l (mkCache b2 a1 f1 na1 np1)) as [r1 c1'].
    destruct (_run pa pp l (mkCache b2 a2 f2 na2 np2)) as [r2 c2'].
    simpl in *; subst r2.
    destruct r1 as [[|]|e]; simpl; auto.
    apply IHr; auto. congruence.
  - assert (E := IHq _ _ H1 H2 eq_refl).
    destruct (_run pa pp q (mkCache b2 a1 f1 na1 np1)) as [r1 c1'].
    destruct (_run pa pp q (mkCache b2 a2 f2 na2 np2)) as [r2 c2'].
    simpl in *; subst r2. destruct r1; reflexivity.
Qed.

(** Evaluation of the composite nodes, each operand on the same entry. *)
Lemma run_OrPath (l r : pattern) (c : _ComputeCache) :
  cache_consistent pa pp c ->
  fst (_run pa pp (OrPath l r) c) =
  res_or (fst (_run pa pp l c)) (fst (_run pa pp r c)).
Proof.
  intros Hc. simpl.
  assert (C1 := run_consistent l _ Hc).
  assert (B1 := proj1 (run_frame l c)).
  destruct (_run pa pp l c) as [[[|]|e] c1]; simpl in *; auto.
  apply run_result_base; auto.
Qed.

Lemma run_AndPath (l r : pattern) (c : _ComputeCache) :
  cache_consistent pa pp c ->
  fst (_run pa pp (AndPath l r) c) =
  res_and (fst (_run pa pp l c)) (fst (_run pa pp r c)).
Proof.
  intros Hc. simpl.
  assert (C1 := run_consistent l _ Hc).
  assert (B1 := proj1 (run_frame l c)).
  destruct (_run pa pp l c) as [[[|]|e] c1]; simpl in *; auto.
  apply run_result_base; auto.
Qed.

Lemma run_NotPath (q : pattern) (c : _ComputeCache) :
  fst (_run pa pp (NotPath q) c) = res_not (fst (_run pa pp q c)).
Proof.
  simpl. destruct (_run pa pp q c) as [[b|e] c1]; reflexivity.
Qed.

End CacheFacts.

(** ** Generator lemmas *)

(** Every path a generator body yields satisfies [P]. *)
Definition g_yields_only (P : path -> Prop) (g : gen) : Prop :=
  forall c, Forall P (fst (fst (g c))).

Definition res_raises_only {A} (Q : exn -> Prop) (r : res A) : Prop :=
  match r with ROk _ => True | RExc e => Q e end.

(** The leaf predicates of a pattern only raise exceptions satisfying [Q]. *)
Fixpoint pattern_raises_only (Q : exn -> Prop) (p : pattern) : Prop :=
  match p with
  | Path pred => forall x, res_raises_only Q (pred x)
  | File pred | Full pred => forall x, res_raises_only Q (pred x)
  | Sec pred _ => forall x, res_raises_only Q (pred x)
  | OrPath l r | AndPath l r => pattern_raises_only Q l /\ pattern_raises_only Q r
  | NotPath q => pattern_raises_only Q q
  end.

(** Entries reachable from [curdir] without going through a symlink. *)
Fixpoint listing_paths (curdir : path) (ls : listing) : list path :=
  match ls with
  | LNil => []
  | LCons e rest => child_paths curdir e ++ listing_paths curdir rest
  | LRaise _ => []
  end
with child_paths (curdir : path) (e : entry) : list path :=
  if entry_is_symlink e then []
  else
    match e with
    | EFile nm _ => [curdir ++ [nm]]
    | EDir nm _ ch => (curdir ++ [nm]) :: listing_paths (curdir ++ [nm]) ch
    end.

Definition root_paths (root : path) (e : entry) : list path :=
  if entry_is_symlink e then []
  else
    match e with
    | EFile _ _ => [root]
    | EDir _ _ ch => root :: listing_paths root ch
    end.

(** The tree with every symlink entry removed. *)
Fixpoint prune_listing (ls : listing) : listing :=
  match ls with
  | LNil => LNil
  | LCons e rest =>
      if entry_is_symlink e then prune_listing rest
      else LCons (prune_entry e) (prune_listing rest)
  | LRaise x => LRaise x
  end
with prune_entry (e : entry) : entry :=
  match e with
  | EFile nm l => EFile nm l
  | EDir nm l ch => EDir nm l (prune_listing ch)
  end.

(** The tree with every symlink flag cleared. *)
Fixpoint unlink_listing (ls : listing) : listing :=
  match ls with
  | LNil => LNil
  | LCons e rest => LCons (unlink_entry e) (unlink_listing rest)
  | LRaise x => LRaise x
  end
with unlink_entry (e : entry) : entry :=
  match e with
  | EFile nm _ => EFile nm false
  | EDir nm _ ch => EDir nm false (unlink_listing ch)
  end.

Lemma g_ret_yields (P : path -> Prop) : g_yields_only P g_ret.
Proof. intros c; simpl; constructor. Qed.

Lemma g_raise_yields (P : path -> Prop) (x : exn) : g_yields_only P (g_raise x).
Proof. intros c; simpl; constructor. Qed.

Lemma g_seq_yields (P : path -> Prop) (g1 g2 : gen) :
  g_yields_only P g1 -> g_yields_only P g2 -> g_yields_only P (g_seq g1 g2).
Proof.
  intros H1 H2 c. unfold g_seq. specialize (H1 c).
  destruct (g1 c) as [[ys1 [u|e]] c1]; simpl in *; [|exact H1].
  specialize (H2 c1). destruct (g2 c1) as [[ys2 r2] c2]; simpl in *.
  apply Forall_app; auto.
Qed.

Lemma g_when_yields (P : path -> Prop) (b : bool) (g : gen) :
  g_yields_only P g -> g_yields_only P (g_when b g).
Proof. destruct b; simpl; auto using g_ret_yields. Qed.

Lemma g_yields_weaken (P P' : path -> Prop) (g : gen) :
  (forall p, P p -> P' p) -> g_yields_only P g -> g_yields_only P' g.
Proof. intros HP H c. eapply Forall_impl; [exact HP|exact (H c)]. Qed.

Lemma g_seq_ext (g1 g1' g2 g2' : gen) :
  (forall c, g1 c = g1' c) -> (forall c, g2 c = g2' c) ->
  forall c, g_seq g1 g2 c = g_seq g1' g2' c.
Proof.
  intros H1 H2 c. unfold g_seq. rewrite H1.
  destruct (g1' c) as [[ys1 [u|e]] c1]; [rewrite H2|]; reflexivity.
Qed.

Lemma g_seq_ret_l (g : gen) (c : _ComputeCache) : g_seq g_ret g c = g c.
Proof. unfold g_seq, g_ret; simpl. destruct (g c) as [[ys r] c']; reflexivity. Qed.

Create HintDb gen_db.
Hint Resolve g_ret_yields g_raise_yields g_seq_yields g_when_yields : gen_db.

Section TraversalFacts.

Variable pa : path -> path.
Variable pp : path -> string.

Lemma test_and_yield_yields (P : path -> Prop) (cfg : _Config) (p : path) :
  P p -> g_yields_only P (test_and_yield pa pp cfg p).
Proof.
  intros Hp c. unfold test_and_yield.
  destruct (_run pa pp (cfg_pattern cfg) (reset c p)) as [[[|]|e] c1]; simpl;
    auto.
Qed.

(** Without [follow_symlinks], only entries reachable without going
    through a symlink are yielded. *)
Lemma dir_files_nofollow_yields (pat : pattern) (r i : bool) :
  forall ls curdir,
  g_yields_only (fun p => In p (listing_paths curdir ls))
    (_unsafe_dir_files pa pp (mkConfig pat r i false) curdir ls).
Proof.
  apply (listing_mut
    (fun e => forall curdir,
       g_yields_only (fun p => In p (child_paths curdir e))
         (dir_child pa pp (mkConfig pat r i false) curdir e))
    (fun ls => forall curdir,
       g_yields_only (fun p => In p (listing_paths curdir ls))
         (_unsafe_dir_files pa pp (mkConfig pat r i false) curdir ls))).
  - intros nm l curdir. simpl. destruct l; simpl; [auto with gen_db|].
    apply test_and_yield_yields; simpl; auto.
  - intros nm l ch IH curdir. simpl. destruct l; simpl; [auto with gen_db|].
    apply g_seq_yields.
    + apply g_when_yields, test_and_yield_yields; simpl; auto.
    + apply g_when_yields.
      eapply g_yields_weaken; [|apply IH]. simpl; auto.
  - intros curdir. simpl. auto with gen_db.
  - intros e IHe rest IHr curdir. simpl. apply g_seq_yields.
    + eapply g_yields_weaken; [|apply IHe].
      intros p Hp; apply in_or_app; auto.
    + eapply g_yields_weaken; [|apply IHr].
      intros p Hp; apply in_or_app; auto.
  - intros x curdir. simpl. auto with gen_db.
Qed.

(** Without [follow_symlinks], the traversal is the one of the pruned tree
    with symlinks followed. *)
Lemma dir_files_prune (pat : pattern) (r i : bool) :
  forall ls curdir c,
  _unsafe_dir_files pa pp (mkConfig pat r i false) curdir ls c =
  _unsafe_dir_files pa pp (mkConfig pat r i true) curdir (prune_listing ls) c.
Proof.
  apply (listing_mut
    (fun e => forall curdir c, entry_is_symlink e = false ->
       dir_child pa pp (mkConfig pat r i false) curdir e c =
       dir_child pa pp (mkConfig pat r i true) curdir (prune_entry e) c)
    (fun ls => forall curdir c,
       _unsafe_dir_files pa pp (mkConfig pat r i false) curdir ls c =
       _unsafe_dir_files pa pp (mkConfig pat r i true) curdir (prune_listing ls) c)).
  - intros nm l curdir c Hl. simpl in *. subst l. reflexivity.
  - intros nm l ch IH curdir c Hl. simpl in *. subst l. simpl.
    apply g_seq_ext; [reflexivity|].
    intros c'. destruct r; simpl; auto.
  - intros curdir c. reflexivity.
  - intros e IHe rest IHr curdir c. simpl.
    destruct (entry_is_symlink e) eqn:Hl.
    + destruct e as [nm l|nm l ch]; simpl in Hl; subst l; simpl;
        rewrite g_seq_ret_l; apply IHr.
    + simpl. apply g_seq_ext; auto.
  - intros x curdir c. reflexivity.
Qed.

(** With [follow_symlinks], the symlink flags play no role. *)
Lemma dir_files_unlink (pat : pattern) (r i : bool) :
  forall ls curdir c,
  _unsafe_dir_files pa pp (mkConfig pat r i true) curdir ls c =
  _unsafe_dir_files pa pp (mkConfig pat r i true) curdir (unlink_listing ls) c.
Proof.
  apply (listing_mut
    (fun e => forall curdir c,
       dir_child pa pp (mkConfig pat r i true) curdir e c =
       dir_child pa pp (mkConfig pat r i true) curdir (unlink_entry e) c)
    (fun ls => forall curdir c,
       _unsafe_dir_files pa pp (mkConfig pat r i true) curdir ls c =
       _unsafe_dir_files pa pp (mkConfig pat r i true) curdir (unlink_listing ls) c)).
  - intros nm l curdir c. reflexivity.
  - intros nm l ch IH curdir c. simpl.
    apply g_seq_ext; [reflexivity|].
    intros c'. destruct r; simpl; auto.
  - intros curdir c. reflexivity.
  - intros e IHe rest IHr curdir c. simpl. apply g_seq_ext; auto.
  - intros x curdir c. reflexivity.
Qed.

End TraversalFacts.

(** ** Claims *)

Definition composite_nodes (l r : pattern) : list pattern :=
  [OrPath l r; AndPath l r; NotPath l].

(** C1: the composite nodes [OrPath], [AndPath] and [NotPath] are not
    [PathPattern]s: no operator applies to them ([TypeError]), and a leaf
    combined with one fails the [_check_arg] assertion ([AssertionError]).
    Building [p | q], [p & q], [~p] or [p - q] from a composite node thus
    always raises. *)
Theorem composite_nodes_cannot_be_combined (l r q : pattern) :
  Forall (fun p =>
    op_or p q = RExc TypeError /\
    op_and p q = RExc TypeError /\
    op_invert p = RExc TypeError /\
    op_sub p q = RExc TypeError /\
    op_or q p = RExc (if is_PathPattern q then AssertionError else TypeError) /\
    op_and q p = RExc (if is_PathPattern q then AssertionError else TypeError) /\
    op_sub q p = RExc (if is_PathPattern q then AssertionError else TypeError))
  (composite_nodes l r).
Proof.
  unfold composite_nodes.
  repeat constructor; destruct q; reflexivity.
Qed.

(** C2: [p - q] never builds a node: it raises [AssertionError] when [p] is
    a leaf (the [NotPath] built by [~q] fails [_check_arg] in [__and__]),
    and [TypeError] when [p] is composite. *)
Theorem sub_never_builds_a_node (p q : pattern) :
  op_sub p q = RExc (if is_PathPattern p then AssertionError else TypeError).
Proof. destruct p, q; reflexivity. Qed.

(** C3: [OrPath] returns [True] as soon as its left side does, and
    [AndPath] returns [False] as soon as its left side does; the right side
    is then not run: the result and the cache are those of the left side,
    whatever the right side is (in particular a right side that raises). *)
Theorem run_short_circuit (pa : path -> path) (pp : path -> string)
    (l : pattern) (c c' : _ComputeCache) (b : bool)
    (Hl : _run pa pp l c = (ROk b, c')) :
  forall r,
  _run pa pp (OrPath l r) c = (if b then (ROk true, c') else _run pa pp r c') /\
  _run pa pp (AndPath l r) c = (if b then _run pa pp r c' else (ROk false, c')).
Proof.
  intros r. simpl. rewrite Hl. destruct b; auto.
Qed.

(** C4: [reset] clears [absolute] and [fullpath]; after it, whatever
    pattern trees are run on the cache, [absolute()] and [as_posix()] are
    each called at most once (exactly when the field is stored), the
    stored values are [absolute(base)] and [as_posix(absolute(base))], and
    a run on a cache whose field is already set does not call again. *)
Theorem cache_computed_once_per_entry (pa : path -> path) (pp : path -> string)
    (c : _ComputeCache) (p : path) (ns : list pattern) :
  let c0 := reset c p in
  let c' := run_all pa pp ns c0 in
  base c0 = p /\ absolute c0 = None /\ fullpath c0 = None /\
  base c' = p /\
  cache_consistent pa pp c' /\
  n_absolute c' = n_absolute c + opt_count (absolute c') /\
  n_as_posix c' = n_as_posix c + opt_count (fullpath c') /\
  (forall n c1,
     let c2 := snd (_run pa pp n c1) in
     n_absolute c2 + opt_count (absolute c1) = n_absolute c1 + opt_count (absolute c2) /\
     n_as_posix c2 + opt_count (fullpath c1) = n_as_posix c1 + opt_count (fullpath c2)).
Proof.
  simpl. split; [reflexivity|]. split; [reflexivity|]. split; [reflexivity|].
  split; [rewrite run_all_base; reflexivity|].
  assert (Hc := run_all_consistent pa pp ns _ (reset_consistent pa pp c p)).
  split; [exact Hc|].
  destruct (run_all_counts pa pp ns (reset c p)) as [H1 H2].
  simpl in H1, H2. split; [lia|]. split; [lia|].
  intros n c1. apply run_counts.
Qed.

(** C5: without [follow_symlinks], a symlink root gives nothing, and
    otherwise the traversal is exactly the one of the tree with every
    symlink entry removed (so no symlink, and nothing below one, is tested,
    yielded or listed); every yielded path is reachable without crossing a
    symlink.  With [follow_symlinks], the traversal is the one of the tree
    with every symlink flag cleared: symlinks are handled as the entries
    they point to. *)
Theorem symlink_policy (pa : path -> path) (pp : path -> string)
    (pat : pattern) (r i : bool) (root : path) (e : entry) (c : _ComputeCache) :
  _unsafe_files_impl pa pp (mkConfig pat r i false) root e c =
    (if entry_is_symlink e then ([], ROk tt, c)
     else _unsafe_files_impl pa pp (mkConfig pat r i true) root (prune_entry e) c) /\
  Forall (fun p => In p (root_paths root e))
    (fst (fst (_unsafe_files_impl pa pp (mkConfig pat r i false) root e c))) /\
  _unsafe_files_impl pa pp (mkConfig pat r i true) root e c =
    _unsafe_files_impl pa pp (mkConfig pat r i true) root (unlink_entry e) c.
Proof.
  split; [|split].
  - unfold _unsafe_files_impl; simpl.
    destruct e as [nm l|nm l ch]; simpl; destruct l; simpl; try reflexivity.
    apply g_seq_ext; [reflexivity|]. apply dir_files_prune.
  - unfold _unsafe_files_impl, root_paths; simpl.
    destruct e as [nm l|nm l ch]; simpl; destruct l; simpl; try constructor.
    + apply (test_and_yield_yields pa pp (fun p => In p [root])); simpl; auto.
    + apply g_seq_yields.
      * apply g_when_yields, test_and_yield_yields; simpl; auto.
      * eapply g_yields_weaken; [|apply dir_files_nofollow_yields].
        simpl; auto.
  - unfold _unsafe_files_impl; simpl.
    destruct e as [nm l|nm l ch]; simpl; try reflexivity.
    apply g_seq_ext; [reflexivity|]. apply dir_files_unlink.
Qed.

(** C6: on a missing root, [files] returns the empty iterator when
    [missing_ok], and raises [FileNotFoundError] otherwise; no generator
    is created. *)
Theorem missing_root (pa : path -> path) (pp : path -> string)
    (root : path) (pat : pattern) (r i f : bool) :
  files_new pa pp root None pat r i true f = ROk EmptyIter /\
  iterate EmptyIter = ([], ROk tt) /\
  files_new pa pp root None pat r i false f = RExc FileNotFoundError.
Proof. repeat split. Qed.

(** C7: when the root is a plain file, iterating the result yields the
    root alone if the pattern matches it and nothing if it does not,
    whatever [recursive] and [include_dir] are. *)
Theorem plain_file_root (pa : path -> path) (pp : path -> string)
    (root : path) (nm : string) (pat : pattern) (r i m f : bool) :
  exists it,
  files_new pa pp root (Some (EFile nm false)) pat r i m f = ROk it /\
  iterate it =
    match fst (_run pa pp pat (mkCache root None None 0 0)) with
    | ROk true => ([root], ROk tt)
    | ROk false => ([], ROk tt)
    | RExc e => ([], RExc e)
    end.
Proof.
  eexists. split; [reflexivity|].
  unfold iterate, _unsafe_files_impl, test_and_yield; simpl.
  rewrite andb_false_r. unfold reset; simpl.
  destruct (_run pa pp pat (mkCache root None None 0 0)) as [[[|]|e] c1];
    reflexivity.
Qed.

(** C10: running any pattern keeps [base]; [absolute] and [fullpath] are
    either kept or set from unset to [absolute(base)] and
    [as_posix(absolute(base))].  This holds also when a predicate raises. *)
Theorem run_keeps_base (pa : path -> path) (pp : path -> string)
    (p : pattern) (c : _ComputeCache) (Hc : cache_consistent pa pp c) :
  let c' := snd (_run pa pp p c) in
  base c' = base c /\
  (absolute c' = absolute c \/
   (absolute c = None /\ absolute c' = Some (pa (base c)))) /\
  (fullpath c' = fullpath c \/
   (fullpath c = None /\ fullpath c' = Some (pp (pa (base c))))).
Proof.
  destruct (run_frame pa pp p c) as (Hb & Ha & Hf).
  simpl. split; [exact Hb|]. split; [exact Ha|].
  destruct Hf as [Hf|[Hf Hf']]; [now left|right].
  split; [exact Hf|]. rewrite Hf'.
  destruct Hc as [[Ha0|Ha0] _]; rewrite Ha0; reflexivity.
Qed.

(** ** Witnesses *)

Definition cache_a : _ComputeCache := mkCache ["a"]%string None None 0 0.

Lemma run_short_circuit_witness :
  _run fixture_absolute fixture_as_posix (File (fun _ => ROk true)) cache_a
    = (ROk true, cache_a) /\
  (_run fixture_absolute fixture_as_posix
     (OrPath (File (fun _ => ROk true)) (File (fun _ => RExc (UserError 0)))) cache_a
     = (ROk true, cache_a) /\
   _run fixture_absolute fixture_as_posix
     (AndPath (File (fun _ => ROk true)) (File (fun _ => RExc (UserError 0)))) cache_a
     = _run fixture_absolute fixture_as_posix (File (fun _ => RExc (UserError 0))) cache_a).
Proof.
  split; [reflexivity|].
  exact (run_short_circuit fixture_absolute fixture_as_posix
           (File (fun _ => ROk true)) cache_a cache_a true eq_refl
           (File (fun _ => RExc (UserError 0)))).
Defined.

Lemma run_keeps_base_witness :
  cache_consistent fixture_absolute fixture_as_posix cache_a /\
  (let c' := snd (_run fixture_absolute fixture_as_posix
                     (Full (fun _ => ROk true)) cache_a) in
   base c' = base cache_a /\
   (absolute c' = absolute cache_a \/
    (absolute cache_a = None /\ absolute c' = Some (fixture_absolute (base cache_a)))) /\
   (fullpath c' = fullpath cache_a \/
    (fullpath cache_a = None /\
     fullpath c' = Some (fixture_as_posix (fixture_absolute (base cache_a)))))).
Proof.
  split; [unfold cache_consistent; simpl; auto|].
  apply run_keeps_base. unfold cache_consistent; simpl; auto.
Defined.

(** ** Further properties of the code *)

(** Whether a pattern has a leaf that reads [cache.absolute]/[fullpath]. *)
Fixpoint uses_absolute (p : pattern) : bool :=
  match p with
  | Path _ | File _ => false
  | Full _ => true
  | Sec _ use_abs => use_abs
  | OrPath l r | AndPath l r => uses_absolute l || uses_absolute r
  | NotPath q => uses_absolute q
  end.

(** Whether the pattern accepts [p], evaluated on a fresh cache for [p]
    (the test [if config.pattern._run(config.cache)]). *)
Definition matches (pa : path -> path) (pp : path -> string)
    (pat : pattern) (p : path) : bool :=
  match fst (_run pa pp pat (mkCache p None None 0 0)) with
  | ROk true => true
  | _ => false
  end.

(** The paths the traversal resets the cache to and tests, in order. *)
Fixpoint tested_listing (cfg : _Config) (curdir : path) (ls : listing) : list path :=
  match ls with
  | LNil => []
  | LCons e rest => tested_child cfg curdir e ++ tested_listing cfg curdir rest
  | LRaise _ => []
  end
with tested_child (cfg : _Config) (curdir : path) (e : entry) : list path :=
  if negb (follow_symlinks cfg) && entry_is_symlink e then []
  else
    match e with
    | EFile nm _ => [curdir ++ [nm]]
    | EDir nm _ ch =>
        (if include_dir cfg then [curdir ++ [nm]] else []) ++
        (if recursive cfg then tested_listing cfg (curdir ++ [nm]) ch else [])
    end.

Definition tested_root (cfg : _Config) (root : path) (e : entry) : list path :=
  if negb (follow_symlinks cfg) && entry_is_symlink e then []
  else
    match e with
    | EFile _ _ => [root]
    | EDir _ _ ch =>
        (if include_dir cfg then [root] else []) ++ tested_listing cfg root ch
    end.

(** Paths of the non-directory entries of a tree. *)
Fixpoint file_paths_listing (curdir : path) (ls : listing) : list path :=
  match ls with
  | LNil => []
  | LCons e rest => file_paths_child curdir e ++ file_paths_listing curdir rest
  | LRaise _ => []
  end
with file_paths_child (curdir : path) (e : entry) : list path :=
  match e with
  | EFile nm _ => [curdir ++ [nm]]
  | EDir nm _ ch => file_paths_listing (curdir ++ [nm]) ch
  end.

Definition file_paths_root (root : path) (e : entry) : list path :=
  match e with
  | EFile _ _ => [root]
  | EDir _ _ ch => file_paths_listing root ch
  end.

(** X2: on a consistent cache, when both operands evaluate without raising,
    [OrPath], [AndPath] and [NotPath] evaluate to [||], [&&] and [negb]. *)
Theorem composite_eval_bool (pa : path -> path) (pp : path -> string)
    (l r : pattern) (c : _ComputeCache) (bl br : bool)
    (Hc : cache_consistent pa pp c)
    (Hl : fst (_run pa pp l c) = ROk bl) (Hr : fst (_run pa pp r c) = ROk br) :
  fst (_run pa pp (OrPath l r) c) = ROk (bl || br) /\
  fst (_run pa pp (AndPath l r) c) = ROk (bl && br) /\
  fst (_run pa pp (NotPath l) c) = ROk (negb bl).
Proof.
  rewrite (run_OrPath pa pp l r c Hc), (run_AndPath pa pp l r c Hc),
          (run_NotPath pa pp l c), Hl, Hr.
  destruct bl; auto.
Qed.

(** X3: the cache left by evaluating any pattern does not change the
    result of evaluating a pattern afterwards on the same entry. *)
Theorem rerun_same_result (pa : path -> path) (pp : path -> string)
    (p q : pattern) (c : _ComputeCache) (Hc : cache_consistent pa pp c) :
  fst (_run pa pp p (snd (_run pa pp q c))) = fst (_run pa pp p c).
Proof.
  apply run_result_base.
  - apply run_consistent; exact Hc.
  - exact Hc.
  - apply (run_frame pa pp q c).
Qed.

(** X4: a pattern without [Full] or absolute [Sec] leaves leaves the cache
    untouched: [absolute()] and [as_posix()] are never called. *)
Theorem no_absolute_keeps_cache (pa : path -> path) (pp : path -> string)
    (p : pattern) (Hp : uses_absolute p = false) :
  forall c, snd (_run pa pp p c) = c.
Proof.
  induction p as [pred|pred|pred|pred ua|l IHl r IHr|l IHl r IHr|q IHq];
    intros c; simpl in *; try discriminate; auto.
  - subst ua. reflexivity.
  - apply orb_false_elim in Hp as [Hl Hr].
    specialize (IHl Hl c).
    destruct (_run pa pp l c) as [[[|]|e] c1]; simpl in *; subst; auto.
  - apply orb_false_elim in Hp as [Hl Hr].
    specialize (IHl Hl c).
    destruct (_run pa pp l c) as [[[|]|e] c1]; simpl in *; subst; auto.
  - specialize (IHq Hp c).
    destruct (_run pa pp q c) as [[b|e] c1]; simpl in *; subst; auto.
Qed.

(** What a generator body yields is a prefix of the paths of [l] accepted
    by [m], the whole of them when it ends normally. *)
Definition g_filters (m : path -> bool) (l : list path) (g : gen) : Prop :=
  forall c, exists rest,
    filter m l = fst (fst (g c)) ++ rest /\
    ((snd (fst (g c)) = ROk tt /\ rest = []) \/ exists e, snd (fst (g c)) = RExc e).

(** A generator body calls [absolute()] and [as_posix()] at most [k] times. *)
Definition g_counts (k : nat) (g : gen) : Prop :=
  forall c, n_absolute (snd (g c)) <= n_absolute c + k /\
            n_as_posix (snd (g c)) <= n_as_posix c + k.

Lemma g_ret_filters (m : path -> bool) : g_filters m [] g_ret.
Proof. intros c. exists []. simpl. auto. Qed.

Lemma g_seq_filters (m : path -> bool) (l1 l2 : list path) (g1 g2 : gen) :
  g_filters m l1 g1 -> g_filters m l2 g2 -> g_filters m (l1 ++ l2) (g_seq g1 g2).
Proof.
  intros H1 H2 c. unfold g_seq. destruct (H1 c) as (rest1 & E1 & O1).
  destruct (g1 c) as [[ys1 r1] c1]; simpl in *.
  rewrite filter_app, E1.
  destruct r1 as [u|e].
  - destruct O1 as [[_ ->]|[e He]]; [|discriminate].
    destruct (H2 c1) as (rest2 & E2 & O2).
    destruct (g2 c1) as [[ys2 r2] c2]; simpl in *.
    exists rest2. rewrite E2, app_nil_r, app_assoc. auto.
  - exists (rest1 ++ filter m l2). rewrite app_assoc. simpl. eauto.
Qed.

Lemma g_raise_filters (m : path -> bool) (x : exn) : g_filters m [] (g_raise x).
Proof. intros c. exists []. simpl. eauto. Qed.

Lemma g_raise_counts (x : exn) : g_counts 0 (g_raise x).
Proof. intros c; simpl; lia. Qed.

Lemma g_when_filters (m : path -> bool) (b : bool) (l : list path) (g : gen) :
  g_filters m l g -> g_filters m (if b then l else []) (g_when b g).
Proof. destruct b; simpl; auto using g_ret_filters. Qed.

Lemma g_ret_counts (k : nat) : g_counts k g_ret.
Proof. intros c; simpl; lia. Qed.

Lemma g_seq_counts (k1 k2 : nat) (g1 g2 : gen) :
  g_counts k1 g1 -> g_counts k2 g2 -> g_counts (k1 + k2) (g_seq g1 g2).
Proof.
  intros H1 H2 c. unfold g_seq. specialize (H1 c).
  destruct (g1 c) as [[ys1 [u|e]] c1]; simpl in *; [|lia].
  specialize (H2 c1). destruct (g2 c1) as [[ys2 r2] c2]; simpl in *; lia.
Qed.

Lemma g_when_counts (b : bool) (k : nat) (g : gen) :
  g_counts k g -> g_counts (if b then k else 0) (g_when b g).
Proof. destruct b; simpl; auto using g_ret_counts. Qed.

Section TraversalSpec.

Variable pa : path -> path.
Variable pp : path -> string.

Lemma test_and_yield_filters (cfg : _Config) (p : path) :
  g_filters (matches pa pp (cfg_pattern cfg)) [p] (test_and_yield pa pp cfg p).
Proof.
  intros c. unfold test_and_yield, matches.
  assert (E : fst (_run pa pp (cfg_pattern cfg) (reset c p)) =
              fst (_run pa pp (cfg_pattern cfg) (mkCache p None None 0 0))).
  { apply run_result_base; [apply reset_consistent| |reflexivity].
    unfold cache_consistent; simpl; auto. }
  simpl. destruct (_run pa pp (cfg_pattern cfg) (reset c p)) as [r c1].
  simpl in E. rewrite <- E.
  destruct r as [[|]|e]; simpl; eauto.
Qed.

Lemma test_and_yield_counts (cfg : _Config) (p : path) :
  g_counts 1 (test_and_yield pa pp cfg p).
Proof.
  intros c. unfold test_and_yield.
  destruct (run_counts pa pp (cfg_pattern cfg) (reset c p)) as [H1 H2].
  destruct (_run pa pp (cfg_pattern cfg) (reset c p)) as [r c1].
  simpl in *.
  assert (opt_count (absolute c1) <= 1) by (destruct (absolute c1); simpl; lia).
  assert (opt_count (fullpath c1) <= 1) by (destruct (fullpath c1); simpl; lia).
  destruct r as [[|]|e]; simpl; lia.
Qed.

Lemma dir_files_filters (cfg : _Config) :
  forall ls curdir,
  g_filters (matches pa pp (cfg_pattern cfg)) (tested_listing cfg curdir ls)
    (_unsafe_dir_files pa pp cfg curdir ls).
Proof.
  apply (listing_mut
    (fun e => forall curdir,
       g_filters (matches pa pp (cfg_pattern cfg)) (tested_child cfg curdir e)
         (dir_child pa pp cfg curdir e))
    (fun ls => forall curdir,
       g_filters (matches pa pp (cfg_pattern cfg)) (tested_listing cfg curdir ls)
         (_unsafe_dir_files pa pp cfg curdir ls))).
  - intros nm l curdir. simpl.
    destruct (negb (follow_symlinks cfg) && l);
      auto using g_ret_filters, test_and_yield_filters.
  - intros nm l ch IH curdir. simpl.
    destruct (negb (follow_symlinks cfg) && l); [apply g_ret_filters|].
    apply g_seq_filters; apply g_when_filters;
      auto using test_and_yield_filters.
  - intros curdir. apply g_ret_filters.
  - intros e IHe rest IHr curdir. simpl. apply g_seq_filters; auto.
  - intros x curdir. apply g_raise_filters.
Qed.

Lemma dir_files_counts (cfg : _Config) :
  forall ls curdir,
  g_counts (List.length (tested_listing cfg curdir ls))
    (_unsafe_dir_files pa pp cfg curdir ls).
Proof.
  apply (listing_mut
    (fun e => forall curdir,
       g_counts (List.length (tested_child cfg curdir e)) (dir_child pa pp cfg curdir e))
    (fun ls => forall curdir,
       g_counts (List.length (tested_listing cfg curdir ls))
         (_unsafe_dir_files pa pp cfg curdir ls))).
  - intros nm l curdir. simpl.
    destruct (negb (follow_symlinks cfg) && l);
      auto using g_ret_counts, test_and_yield_counts.
  - intros nm l ch IH curdir. simpl.
    destruct (negb (follow_symlinks cfg) && l); [apply g_ret_counts|].
    rewrite length_app.
    apply g_seq_counts.
    + destruct (include_dir cfg); simpl;
        auto using g_ret_counts, test_and_yield_counts.
    + destruct (recursive cfg); simpl; auto using g_ret_counts.
  - intros curdir. apply g_ret_counts.
  - intros e IHe rest IHr curdir. simpl. rewrite length_app.
    apply g_seq_counts; auto.
  - intros x curdir. apply g_raise_counts.
Qed.

Lemma dir_files_nodir_yields (pat : pattern) (r f : bool) :
  forall ls curdir,
  g_yields_only (fun p => In p (file_paths_listing curdir ls))
    (_unsafe_dir_files pa pp (mkConfig pat r false f) curdir ls).
Proof.
  apply (listing_mut
    (fun e => forall curdir,
       g_yields_only (fun p => In p (file_paths_child curdir e))
         (dir_child pa pp (mkConfig pat r false f) curdir e))
    (fun ls => forall curdir,
       g_yields_only (fun p => In p (file_paths_listing curdir ls))
         (_unsafe_dir_files pa pp (mkConfig pat r false f) curdir ls))).
  - intros nm l curdir. simpl. destruct (negb f && l); [auto with gen_db|].
    apply test_and_yield_yields; simpl; auto.
  - intros nm l ch IH curdir. simpl. destruct (negb f && l); [auto with gen_db|].
    apply g_seq_yields; [simpl; auto with gen_db|].
    destruct r; simpl; [apply IH|auto with gen_db].
  - intros curdir. simpl. auto with gen_db.
  - intros e IHe rest IHr curdir. simpl. apply g_seq_yields.
    + eapply g_yields_weaken; [|apply IHe].
      intros p Hp; apply in_or_app; auto.
    + eapply g_yields_weaken; [|apply IHr].
      intros p Hp; apply in_or_app; auto.
  - intros x curdir. simpl. auto with gen_db.
Qed.

End TraversalSpec.

Lemma files_impl_filters (pa : path -> path) (pp : path -> string)
    (cfg : _Config) (root : path) (e : entry) :
  g_filters (matches pa pp (cfg_pattern cfg)) (tested_root cfg root e)
    (_unsafe_files_impl pa pp cfg root e).
Proof.
  unfold _unsafe_files_impl, tested_root.
  destruct (negb (follow_symlinks cfg) && entry_is_symlink e);
    [apply g_ret_filters|].
  destruct e as [nm l|nm l ch]; [apply test_and_yield_filters|].
  apply g_seq_filters; [apply g_when_filters, test_and_yield_filters|].
  apply dir_files_filters.
Qed.

(** X6: without [include_dir], only non-directory entries are yielded
    (never the root directory nor any subdirectory). *)
Theorem no_include_dir_yields_files (pa : path -> path) (pp : path -> string)
    (root : path) (e : entry) (pat : pattern) (r m f : bool) :
  match files_new pa pp root (Some e) pat r false m f with
  | ROk it => Forall (fun p => In p (file_paths_root root e)) (fst (iterate it))
  | RExc _ => False
  end.
Proof.
  simpl.
  assert (H : g_yields_only (fun p => In p (file_paths_root root e))
                (_unsafe_files_impl pa pp (mkConfig pat r false f) root e)).
  { unfold _unsafe_files_impl, file_paths_root.
    destruct (negb (mkConfig pat r false f).(follow_symlinks) && entry_is_symlink e);
      [auto with gen_db|].
    destruct e as [nm l|nm l ch].
    - apply test_and_yield_yields; simpl; auto.
    - apply g_seq_yields; [simpl; auto with gen_db|].
      apply dir_files_nodir_yields. }
  specialize (H (mkCache root None None 0 0)).
  destruct (_unsafe_files_impl pa pp (mkConfig pat r false f) root e
              (mkCache root None None 0 0)) as [[ys rr] c'].
  exact H.
Qed.

(** X7: iterating [files] yields, in order, the tested paths (depth first,
    directories before their contents, symlinks skipped without
    [follow_symlinks]) that the pattern accepts on their own; an exception
    of a predicate cuts this list short, and otherwise it is yielded whole. *)
Theorem traversal_filters_tested (pa : path -> path) (pp : path -> string)
    (root : path) (e : entry) (pat : pattern) (r i m f : bool) :
  match files_new pa pp root (Some e) pat r i m f with
  | ROk it =>
      exists rest,
        filter (matches pa pp pat) (tested_root (mkConfig pat r i f) root e)
          = fst (iterate it) ++ rest /\
        ((snd (iterate it) = ROk tt /\ rest = []) \/
         exists x, snd (iterate it) = RExc x)
  | RExc _ => False
  end.
Proof.
  simpl.
  assert (H := files_impl_filters pa pp (mkConfig pat r i f) root e
                 (mkCache root None None 0 0)).
  simpl in H.
  destruct (_unsafe_files_impl pa pp (mkConfig pat r i f) root e
              (mkCache root None None 0 0)) as [[ys rr] c'].
  exact H.
Qed.

(** X8: a whole traversal calls [absolute()] and [as_posix()] at most once
    per tested entry. *)
Theorem absolute_calls_bounded (pa : path -> path) (pp : path -> string)
    (cfg : _Config) (root : path) (e : entry) (c : _ComputeCache) :
  let c' := snd (_unsafe_files_impl pa pp cfg root e c) in
  n_absolute c' <= n_absolute c + List.length (tested_root cfg root e) /\
  n_as_posix c' <= n_as_posix c + List.length (tested_root cfg root e).
Proof.
  revert c.
  change (g_counts (List.length (tested_root cfg root e))
            (_unsafe_files_impl pa pp cfg root e)).
  unfold _unsafe_files_impl, tested_root.
  destruct (negb (follow_symlinks cfg) && entry_is_symlink e);
    [apply g_ret_counts|].
  destruct e as [nm l|nm l ch]; [apply test_and_yield_counts|].
  rewrite length_app. apply g_seq_counts.
  - destruct (include_dir cfg); simpl;
      auto using g_ret_counts, test_and_yield_counts.
  - apply dir_files_counts.
Qed.

(** ** Witnesses of the further properties *)

Definition never_c : pattern := File (fun _ => ROk false).
Definition always_full : pattern := Full (fun _ => ROk true).

Lemma composite_eval_bool_witness :
  cache_consistent fixture_absolute fixture_as_posix cache_a /\
  fst (_run fixture_absolute fixture_as_posix always_full cache_a) = ROk true /\
  fst (_run fixture_absolute fixture_as_posix never_c cache_a) = ROk false /\
  (fst (_run fixture_absolute fixture_as_posix (OrPath always_full never_c) cache_a)
     = ROk (true || false) /\
   fst (_run fixture_absolute fixture_as_posix (AndPath always_full never_c) cache_a)
     = ROk (true && false) /\
   fst (_run fixture_absolute fixture_as_posix (NotPath always_full) cache_a)
     = ROk (negb true)).
Proof.
  assert (Hc : cache_consistent fixture_absolute fixture_as_posix cache_a)
    by (unfold cache_consistent; simpl; auto).
  split; [exact Hc|]. split; [reflexivity|]. split; [reflexivity|].
  apply composite_eval_bool; [exact Hc|reflexivity|reflexivity].
Defined.

Lemma rerun_same_result_witness :
  cache_consistent fixture_absolute fixture_as_posix cache_a /\
  fst (_run fixture_absolute fixture_as_posix always_full
         (snd (_run fixture_absolute fixture_as_posix
                 (Sec (fun _ => ROk true) true) cache_a)))
  = fst (_run fixture_absolute fixture_as_posix always_full cache_a).
Proof.
  assert (Hc : cache_consistent fixture_absolute fixture_as_posix cache_a)
    by (unfold cache_consistent; simpl; auto).
  split; [exact Hc|]. apply rerun_same_result. exact Hc.
Defined.

Lemma no_absolute_keeps_cache_witness :
  uses_absolute (OrPath never_c (Sec (fun _ => ROk true) false)) = false /\
  snd (_run fixture_absolute fixture_as_posix
         (OrPath never_c (Sec (fun _ => ROk true) false)) cache_a) = cache_a.
Proof.
  split; [reflexivity|].
  apply (no_absolute_keeps_cache fixture_absolute fixture_as_posix
           (OrPath never_c (Sec (fun _ => ROk true) false))).
  reflexivity.
Defined.


(** ** Non-recursive traversal and laziness of [files] *)

(** A direct child with its own listing replaced by an empty one. *)
Definition shallow_entry (e : entry) : entry :=
  match e with
  | EFile nm l => EFile nm l
  | EDir nm l _ => EDir nm l LNil
  end.

Fixpoint shallow_listing (ls : listing) : listing :=
  match ls with
  | LNil => LNil
  | LCons e rest => LCons (shallow_entry e) (shallow_listing rest)
  | LRaise x => LRaise x
  end.

(** The tree cut below the root's direct children. *)
Definition shallow_root (e : entry) : entry :=
  match e with
  | EFile nm l => EFile nm l
  | EDir nm l ch => EDir nm l (shallow_listing ch)
  end.

Definition is_dir_entry (e : entry) : bool :=
  match e with EDir _ _ _ => true | EFile _ _ => false end.

Definition always_true : pattern := File (fun _ => ROk true).

Section NonRecursive.

Variable pa : path -> path.
Variable pp : path -> string.

Lemma dir_files_nonrec_shallow (pat : pattern) (i f : bool) (ls : listing) :
  forall curdir c,
  _unsafe_dir_files pa pp (mkConfig pat false i f) curdir ls c =
  _unsafe_dir_files pa pp (mkConfig pat false i f) curdir (shallow_listing ls) c.
Proof.
  induction ls as [|e rest IH|x]; intros curdir c; simpl; try reflexivity.
  apply g_seq_ext; [|auto].
  intros c'. destruct e as [nm l|nm l ch]; reflexivity.
Qed.

Lemma tested_listing_nonrec (pat : pattern) (i f : bool) (ls : listing) :
  forall curdir,
  Forall (fun p => exists nm, p = curdir ++ [nm])
    (tested_listing (mkConfig pat false i f) curdir ls).
Proof.
  induction ls as [|e rest IH|x]; intros curdir; simpl; auto.
  apply Forall_app; split; [|apply IH].
  destruct e as [nm l|nm l ch]; simpl; destruct (negb f && l); simpl; auto.
  all: destruct i; simpl; repeat constructor; eauto.
Qed.

End NonRecursive.

(** C8: without [recursive], the contents of subdirectories are never
    read: cutting the tree below the root's direct children (dropping
    their listings, also listings that would raise) changes nothing of the
    run, neither the yields, nor how it ends, nor the cache and its call
    counters.  The entries the cache is reset to and the pattern is run on
    are the root (only with [include_dir], or when it is not a directory)
    and its direct children, and every yielded path is among them. *)
Theorem nonrecursive_examines_depth_one (pa : path -> path) (pp : path -> string)
    (pat : pattern) (i f : bool) (root : path) (e : entry) (c : _ComputeCache) :
  _unsafe_files_impl pa pp (mkConfig pat false i f) root e c =
    _unsafe_files_impl pa pp (mkConfig pat false i f) root (shallow_root e) c /\
  Forall (fun p => (p = root /\ (i = true \/ is_dir_entry e = false)) \/
                   exists nm, p = root ++ [nm])
    (tested_root (mkConfig pat false i f) root e) /\
  exists rest,
    filter (matches pa pp pat) (tested_root (mkConfig pat false i f) root e) =
    fst (fst (_unsafe_files_impl pa pp (mkConfig pat false i f) root e c)) ++ rest.
Proof.
  split; [|split].
  - unfold _unsafe_files_impl.
    destruct e as [nm l|nm l ch]; simpl; [reflexivity|].
    destruct (negb f && l); [reflexivity|].
    apply g_seq_ext; [reflexivity|]. apply dir_files_nonrec_shallow.
  - unfold tested_root. simpl.
    destruct (negb f && entry_is_symlink e); [constructor|].
    destruct e as [nm l|nm l ch]; simpl.
    + constructor; [left; split; [reflexivity|right; reflexivity]|constructor].
    + apply Forall_app; split.
      * destruct i; simpl; repeat constructor; auto.
      * eapply Forall_impl; [|apply tested_listing_nonrec]. simpl; auto.
  - destruct (files_impl_filters pa pp (mkConfig pat false i f) root e c)
      as (rest & E & _).
    exists rest. exact E.
Qed.

(** C9 (as the code behaves): [FileNotFoundError] for a missing root with
    [missing_ok=False] is raised by the call to [files] itself; for an
    existing root the call raises nothing and returns the generator of
    [_unsafe_files_impl], not yet started, with a fresh cache. *)
Theorem not_found_raised_by_call (pa : path -> path) (pp : path -> string)
    (root : path) (e : entry) (pat : pattern) (r i m f : bool) :
  files_new pa pp root None pat r i false f = RExc FileNotFoundError /\
  files_new pa pp root (Some e) pat r i m f =
    ROk (GenIter (_unsafe_files_impl pa pp (mkConfig pat r i f) root e)
                 (mkCache root None None 0 0)).
Proof. split; reflexivity. Qed.

(** C9 counterexample: an existing root directory, a pattern that never
    raises, [include_dir=True]; the root is yielded, then it is removed
    before it is listed, and the next step of the iteration raises
    [FileNotFoundError] from [iterdir()] for the root. *)
Lemma root_not_found_during_iteration :
  pattern_raises_only (fun x => x <> FileNotFoundError) always_true /\
  exists g c0,
    files_new fixture_absolute fixture_as_posix tmp_root
      (Some (EDir "tmp" false (LRaise FileNotFoundError)))
      always_true false true true true = ROk (GenIter g c0) /\
    iterate (GenIter g c0) = ([tmp_root], RExc FileNotFoundError).
Proof.
  split; [simpl; intros; exact I|].
  do 2 eexists. split; reflexivity.
Qed.
